(** * SnoopyChase: the motion controller of [snoopy_chase.py]

    A shallow embedding of the per-frame update of [ChaserApp]: the eased
    velocity, the speed cap, the clamping of the sprite into the canvas and
    the pointer-over-sprite test, together with the event handlers that
    touch the same state.

    Python floats are modelled as real numbers: [math.hypot] is the
    Euclidean norm, [/] is exact division, and the integers handed over by
    Tk (pointer coordinates, canvas and sprite sizes) are embedded in [R].
    Statements about computed magnitudes carry the tolerance [FLOAT_RTOL],
    and module [B64] runs the same arithmetic in binary64 where the source
    fixes it, to show what rounding does. *)

From Stdlib Require Import Floats.
From Stdlib Require Import Reals Lra Psatz Bool String ZArith Lia List.

Open Scope R_scope.

(** ** Configuration constants (module level in the source) *)

Definition WINDOW_SIZE : R * R := (900, 600).
Definition TARGET_EASING : R := 15 / 100.
Definition MAX_SPEED : R := 18.
Definition CURSOR_NORMAL : string := "arrow".
Definition POINTER_PADDING : R := 2.

(** ** Python builtins used by the controller *)

(** [max(a, b)] keeps its first argument unless the second is strictly
    greater; [min(a, b)] keeps it unless the second is strictly smaller. *)
Definition py_max (a b : R) : R := if Rlt_dec a b then b else a.
Definition py_min (a b : R) : R := if Rlt_dec b a then b else a.

(** [math.hypot(x, y)]. *)
Definition hypot (x y : R) : R := sqrt (x * x + y * y).

(** Comparisons as Python booleans. *)
Definition Rleb (a b : R) : bool := if Rle_dec a b then true else false.
Definition Rgtb (a b : R) : bool := if Rlt_dec b a then true else false.
Definition Reqb (a b : R) : bool := if Req_dec_T a b then true else false.

(** ** State *)

(** The Tk canvas as far as the controller reads and writes it: its size
    ([winfo_width], [winfo_height]), the centre of the sprite item when that
    item exists, and the cursor option. *)
Record Canvas : Type := mkCanvas {
  winfo_width : R;
  winfo_height : R;
  sprite_item : option (R * R);
  cursor : string
}.

Record ChaserApp : Type := mkChaserApp {
  canvas : Canvas;
  sprite_w : R;
  sprite_h : R;
  target : R * R;
  vel : R * R;
  _cursor_hidden : bool;
  _running : bool
}.

(** [canvas.find_withtag(self.sprite)], used as a truth value. *)
Definition find_withtag (c : Canvas) : bool :=
  match sprite_item c with Some _ => true | None => false end.

(** [canvas.coords(self.sprite, nx, ny)]: moving an item that does not
    exist changes nothing. *)
Definition coords_set (c : Canvas) (nx ny : R) : Canvas :=
  match sprite_item c with
  | Some _ => mkCanvas (winfo_width c) (winfo_height c) (Some (nx, ny)) (cursor c)
  | None => c
  end.

(** [canvas.config(cursor=k)]. *)
Definition config_cursor (c : Canvas) (k : string) : Canvas :=
  mkCanvas (winfo_width c) (winfo_height c) (sprite_item c) k.

Definition with_canvas (self : ChaserApp) (c : Canvas) : ChaserApp :=
  mkChaserApp c (sprite_w self) (sprite_h self) (target self) (vel self)
              (_cursor_hidden self) (_running self).

Definition with_cursor_hidden (self : ChaserApp) (b : bool) : ChaserApp :=
  mkChaserApp (canvas self) (sprite_w self) (sprite_h self) (target self)
              (vel self) b (_running self).

(** ** Helpers *)

Definition clamp_to_canvas (self : ChaserApp) (x y : R) : R * R :=
  let half_w := sprite_w self / 2 in
  let half_h := sprite_h self / 2 in
  let w := winfo_width (canvas self) in
  let h := winfo_height (canvas self) in
  let nx := py_min (py_max x half_w) (py_max half_w (w - half_w)) in
  let ny := py_min (py_max y half_h) (py_max half_h (h - half_h)) in
  (nx, ny).

(** ** Event handlers and loop *)

Definition on_mouse_move (self : ChaserApp) (event_x event_y : R) : ChaserApp :=
  mkChaserApp (canvas self) (sprite_w self) (sprite_h self) (event_x, event_y)
              (vel self) (_cursor_hidden self) (_running self).

(** The [<Configure>] handler runs after Tk has given the canvas its new
    size, which [resize_canvas] records.  Unpacking the coordinates of a
    missing item raises, hence the [option]. *)
Definition resize_canvas (self : ChaserApp) (w h : R) : ChaserApp :=
  with_canvas self
    (mkCanvas w h (sprite_item (canvas self)) (cursor (canvas self))).

Definition on_resize (self : ChaserApp) : option ChaserApp :=
  match sprite_item (canvas self) with
  | None => None
  | Some (x, y) =>
      let '(nx, ny) := clamp_to_canvas self x y in
      if Reqb nx x && Reqb ny y
      then Some self
      else Some (with_canvas self (coords_set (canvas self) nx ny))
  end.

Definition pointer_over_sprite (self : ChaserApp) : bool :=
  match sprite_item (canvas self) with
  | None => false
  | Some (sx, sy) =>
      let half_w := sprite_w self / 2 in
      let half_h := sprite_h self / 2 in
      let x0 := sx - half_w - POINTER_PADDING in
      let y0 := sy - half_h - POINTER_PADDING in
      let x1 := sx + half_w + POINTER_PADDING in
      let y1 := sy + half_h + POINTER_PADDING in
      let '(mx, my) := target self in
      (Rleb x0 mx && Rleb mx x1) && (Rleb y0 my && Rleb my y1)
  end.

(** The speed cap of [loop]: the block
    [speed = hypot(..); if speed > MAX_SPEED: s = ..; vx *= s; vy *= s]. *)
Definition cap_speed (desired_vx desired_vy : R) : R * R :=
  let speed := hypot desired_vx desired_vy in
  if Rgtb speed MAX_SPEED then
    let s := MAX_SPEED / py_max speed (1 / 1000000) in
    (desired_vx * s, desired_vy * s)
  else (desired_vx, desired_vy).

(** The velocity of one frame, from the sprite centre [(x, y)]. *)
Definition frame_velocity (self : ChaserApp) (x y : R) : R * R :=
  let '(tx, ty) := target self in
  let dx := tx - x in
  let dy := ty - y in
  let desired_vx := dx * TARGET_EASING in
  let desired_vy := dy * TARGET_EASING in
  cap_speed desired_vx desired_vy.

(** The cursor update at the end of [loop]. *)
Definition update_cursor (self : ChaserApp) : ChaserApp :=
  if pointer_over_sprite self then
    if negb (_cursor_hidden self)
    then with_cursor_hidden (with_canvas self (config_cursor (canvas self) "none")) true
    else self
  else
    if _cursor_hidden self
    then with_cursor_hidden (with_canvas self (config_cursor (canvas self) CURSOR_NORMAL)) false
    else self.

(** One run of [loop]; re-arming the timer is left to the caller ([run]). *)
Definition loop (self : ChaserApp) : ChaserApp :=
  if negb (_running self) || negb (find_withtag (canvas self)) then self
  else
    match sprite_item (canvas self) with
    | None => self
    | Some (x, y) =>
        let '(desired_vx, desired_vy) := frame_velocity self x y in
        let '(nx, ny) := clamp_to_canvas self (x + desired_vx) (y + desired_vy) in
        update_cursor (with_canvas self (coords_set (canvas self) nx ny))
    end.

(** [n] timer callbacks in a row, with no event in between. *)
Definition run (n : nat) (self : ChaserApp) : ChaserApp := Nat.iter n loop self.

(** ** Vocabulary of the statements *)

(** The interval into which [clamp_to_canvas] brings a coordinate. *)
Definition clamp_lo (size : R) : R := size / 2.
Definition clamp_hi (size extent : R) : R := py_max (size / 2) (extent - size / 2).

Definition in_clamp_range (self : ChaserApp) (p : R * R) : Prop :=
  (clamp_lo (sprite_w self) <= fst p
     <= clamp_hi (sprite_w self) (winfo_width (canvas self)))
  /\ (clamp_lo (sprite_h self) <= snd p
     <= clamp_hi (sprite_h self) (winfo_height (canvas self))).

(** [c] is the point of the interval from [lo] to [hi] nearest to [x]. *)
Definition nearest_in (lo hi x c : R) : Prop :=
  lo <= c <= hi
  /\ forall z, lo <= z <= hi -> Rabs (c - x) <= Rabs (z - x).


(** The padded bounding box of the sprite around the centre [c]. *)
Definition in_padded_box (self : ChaserApp) (c m : R * R) : Prop :=
  (fst c - sprite_w self / 2 - POINTER_PADDING <= fst m
     <= fst c + sprite_w self / 2 + POINTER_PADDING)
  /\ (snd c - sprite_h self / 2 - POINTER_PADDING <= snd m
     <= snd c + sprite_h self / 2 + POINTER_PADDING).

(** A running application whose sprite sits at [p]. *)
Definition sprite_at (self : ChaserApp) (p : R * R) : Prop :=
  _running self = true /\ sprite_item (canvas self) = Some p.

(** A freshly started application, as [__init__] leaves it: normal cursor,
    nothing hidden, [vel] at zero, the timer running.  [__init__] itself
    puts the sprite and the target at the centre of [WINDOW_SIZE],
    (450,300), and calls [loop] before the canvas is laid out, when Tk still
    reports a canvas of 1x1. *)
Definition app (w h sw sh : R) (pos tgt : R * R) : ChaserApp :=
  mkChaserApp (mkCanvas w h (Some pos) CURSOR_NORMAL) sw sh tgt (0, 0) false true.

(** The state of [loop] after the move and before the cursor update. *)
Definition moved (self : ChaserApp) (x y : R) : ChaserApp :=
  let v := frame_velocity self x y in
  let n := clamp_to_canvas self (x + fst v) (y + snd v) in
  with_canvas self (coords_set (canvas self) (fst n) (snd n)).

(** ** Rounding *)


(** The arithmetic of [clamp_to_canvas] and of the move in [loop] in
    binary64, for a running application with its sprite. *)
Module B64.

(** The literal [0.15] denotes the binary64 nearest to it, and [1e-6]
    likewise; 18 is an integer, exact as a float. *)
Definition TARGET_EASING : float := 0x1.3333333333333p-3%float.
Definition MAX_SPEED : float := 18%float.
Definition EPSILON : float := 0x1.0c6f7a0b5ed8dp-20%float.

Definition py_max (a b : float) : float := if PrimFloat.ltb a b then b else a.
Definition py_min (a b : float) : float := if PrimFloat.ltb b a then b else a.

(** [math.hypot(x, y)].  How it rounds is left to the C library, except
    along an axis: with one argument zero the result is the absolute value
    of the other, exactly.  Elsewhere this model gives no value. *)
Definition hypot (x y : float) : option float :=
  if PrimFloat.eqb y 0%float then Some (PrimFloat.abs x)
  else if PrimFloat.eqb x 0%float then Some (PrimFloat.abs y)
  else None.

(** Canvas size, sprite size, sprite centre and target; the integers among
    them are floats with an integer value. *)
Record App : Type := mkApp {
  winfo_width : float;
  winfo_height : float;
  sprite_w : float;
  sprite_h : float;
  coords : float * float;
  target : float * float
}.

Definition clamp_to_canvas (self : App) (x y : float) : float * float :=
  let half_w := PrimFloat.div (sprite_w self) 2%float in
  let half_h := PrimFloat.div (sprite_h self) 2%float in
  let w := winfo_width self in
  let h := winfo_height self in
  let nx := py_min (py_max x half_w) (py_max half_w (PrimFloat.sub w half_w)) in
  let ny := py_min (py_max y half_h) (py_max half_h (PrimFloat.sub h half_h)) in
  (nx, ny).

Definition cap_speed (desired_vx desired_vy : float) : option (float * float) :=
  match hypot desired_vx desired_vy with
  | None => None
  | Some speed =>
      if PrimFloat.ltb MAX_SPEED speed then
        let s := PrimFloat.div MAX_SPEED (py_max speed EPSILON) in
        Some (PrimFloat.mul desired_vx s, PrimFloat.mul desired_vy s)
      else Some (desired_vx, desired_vy)
  end.

Definition frame_velocity (self : App) : option (float * float) :=
  let '(x, y) := coords self in
  let '(tx, ty) := target self in
  let dx := PrimFloat.sub tx x in
  let dy := PrimFloat.sub ty y in
  let desired_vx := PrimFloat.mul dx TARGET_EASING in
  let desired_vy := PrimFloat.mul dy TARGET_EASING in
  cap_speed desired_vx desired_vy.

(** The move of [loop]: the new state, when the model fixes the speed. *)
Definition loop (self : App) : option App :=
  match frame_velocity self with
  | None => None
  | Some (desired_vx, desired_vy) =>
      let '(x, y) := coords self in
      let n := clamp_to_canvas self (PrimFloat.add x desired_vx)
                                    (PrimFloat.add y desired_vy) in
      Some (mkApp (winfo_width self) (winfo_height self)
                  (sprite_w self) (sprite_h self) n (target self))
  end.

Fixpoint run (n : nat) (self : App) : option App :=
  match n with
  | O => Some self
  | S n' => match run n' self with
            | Some self' => loop self'
            | None => None
            end
  end.

End B64.

(** ** Cursor events bound in [__init__] *)

(** [<Enter>] and [<Leave>] on the canvas reset the cursor option and leave
    [_cursor_hidden] alone. *)
Definition on_enter (self : ChaserApp) : ChaserApp :=
  with_canvas self (config_cursor (canvas self) CURSOR_NORMAL).

Definition on_leave (self : ChaserApp) : ChaserApp :=
  with_canvas self (config_cursor (canvas self) "arrow").

(** The cursor option agrees with the flag [_cursor_hidden]. *)
Definition cursor_in_step (self : ChaserApp) : Prop :=
  cursor (canvas self) = if _cursor_hidden self then "none"%string else CURSOR_NORMAL.

(** ** The image choice dialog *)

Definition IMAGE_CHOICES : list (string * string) :=
  ("Snoopy (flying)"%string, "snoopy-flying.png"%string)
  :: ("Snoopy (grabbing)"%string, "snoopy-grabbing.png"%string) :: nil.

(** The state of [ImageChoiceDialog] its handlers touch: the [StringVar]
    behind the radio buttons, [result], and whether [destroy] has run. *)
Record ImageChoiceDialog : Type := mkDialog {
  var : string;
  result : option string;
  destroyed : bool
}.

(** Truth value of a Python string. *)
Definition truthy (s : string) : bool :=
  match s with EmptyString => false | _ => true end.

(** [__init__] reads [choices[0][1]], which raises on an empty list. *)
Definition dialog_init (choices : list (string * string)) : option ImageChoiceDialog :=
  match choices with
  | nil => None
  | (_, path) :: _ => Some (mkDialog path None false)
  end.

(** [on_browse], given the answer of [askopenfilename] (empty when the
    picker is cancelled). *)
Definition on_browse (dlg : ImageChoiceDialog) (path : string) : ImageChoiceDialog :=
  if truthy path then mkDialog path (result dlg) (destroyed dlg) else dlg.

Definition on_ok (dlg : ImageChoiceDialog) : ImageChoiceDialog :=
  mkDialog (var dlg) (Some (var dlg)) true.

Definition on_cancel (dlg : ImageChoiceDialog) : ImageChoiceDialog :=
  mkDialog (var dlg) None true.

(** What the user can do in the dialog: click the [i]-th radio button
    (which stores its [value], the path of the [i]-th choice, in [var]),
    use "Browse" and answer the file picker, confirm (the OK button or
    Return), or dismiss (the Cancel button, Escape or closing the window). *)
Inductive DialogAction : Type :=
| ClickRadio (i : nat)
| ClickBrowse (answer : string)
| Confirm
| Dismiss.

(** A destroyed dialog receives no further event. *)
Definition dialog_step (choices : list (string * string))
    (dlg : ImageChoiceDialog) (a : DialogAction) : ImageChoiceDialog :=
  if destroyed dlg then dlg
  else match a with
       | ClickRadio i =>
           match nth_error choices i with
           | Some (_, path) => mkDialog path (result dlg) (destroyed dlg)
           | None => dlg
           end
       | ClickBrowse answer => on_browse dlg answer
       | Confirm => on_ok dlg
       | Dismiss => on_cancel dlg
       end.

Inductive ChoiceOutcome : Type :=
| Raised
| Waiting
| Returned (r : option string).

(** [choose_image_path]: build the dialog, wait until it is destroyed and
    return its [result]; the [while True] loop returns in its first round. *)
Definition choose_image_path (choices : list (string * string))
    (actions : list DialogAction) : ChoiceOutcome :=
  match dialog_init choices with
  | None => Raised
  | Some dlg =>
      let dlg' := fold_left (dialog_step choices) actions dlg in
      if destroyed dlg' then Returned (result dlg') else Waiting
  end.

(** What holds of every path the dialog can hand back. *)
Definition pickable (choices : list (string * string))
    (actions : list DialogAction) (p : string) : Prop :=
  truthy p = true
  /\ (In p (map snd choices) \/ In (ClickBrowse p) actions).

(** The position [ImageChoiceDialog.__init__] gives the dialog of size
    [w]x[h] on a screen of size [sw]x[sh]; [//] is floor division. *)
Definition dialog_position (sw sh w h : Z) : Z * Z :=
  (((sw - w) / 2)%Z, ((sh - h) / 2)%Z).

(** ** Loading the sprite *)

Section LoadSprite.

(** The file system and decoder as [load_sprite_image] sees them:
    [os.path.exists], and [Image.open(..).convert("RGBA")] with [None]
    for any exception. *)
Variable image : Type.
Variable path_exists : string -> bool.
Variable open_rgba : string -> option image.

(** The error dialogs shown, by title. *)
Definition try_open (candidate : string) : option image * list string :=
  match open_rgba candidate with
  | Some img => (Some img, nil)
  | None => (None, "Image error"%string :: nil)
  end.

(** [alt] is the answer of the file picker, asked only when [path] does
    not exist. *)
Definition load_sprite_image (path alt : string) : option image * list string :=
  if negb (path_exists path) then
    if negb (truthy alt) then (None, "Image missing"%string :: nil)
    else try_open alt
  else try_open path.

End LoadSprite.

(** ** Basic facts about the builtins *)

(** Case analysis on every comparison in sight, then linear arithmetic. *)
Ltac case_Rlt :=
  repeat match goal with
         | |- context [Rlt_dec ?a ?b] => destruct (Rlt_dec a b)
         | H : context [Rlt_dec ?a ?b] |- _ => destruct (Rlt_dec a b)
         end;
  simpl in *; try lra.

Lemma py_max_Rmax (a b : R) : py_max a b = Rmax a b.
Proof.
  unfold py_max, Rmax.
  destruct (Rlt_dec a b), (Rle_dec a b); lra.
Qed.

Lemma py_min_Rmin (a b : R) : py_min a b = Rmin a b.
Proof.
  unfold py_min, Rmin.
  destruct (Rlt_dec b a), (Rle_dec a b); lra.
Qed.

Lemma Rleb_true (a b : R) : Rleb a b = true <-> a <= b.
Proof.
  unfold Rleb. destruct (Rle_dec a b); split; intros; try easy.
Qed.

Lemma Rgtb_true (a b : R) : Rgtb a b = true <-> b < a.
Proof.
  unfold Rgtb. destruct (Rlt_dec b a); split; intros; try easy.
Qed.

Lemma Rgtb_false (a b : R) : Rgtb a b = false <-> a <= b.
Proof.
  unfold Rgtb. destruct (Rlt_dec b a); split; intros; try easy; lra.
Qed.

Lemma Reqb_true (a b : R) : Reqb a b = true <-> a = b.
Proof.
  unfold Reqb. destruct (Req_dec_T a b); split; intros; try easy.
Qed.

(** One coordinate of [clamp_to_canvas]. *)
Lemma clamp_coord_bounds (x half ext : R) :
  half <= py_min (py_max x half) (py_max half (ext - half))
       <= py_max half (ext - half).
Proof.
  unfold py_min, py_max; intros; case_Rlt.
Qed.

Lemma clamp_coord_fixed (x half ext : R) :
  half <= x <= py_max half (ext - half) ->
  py_min (py_max x half) (py_max half (ext - half)) = x.
Proof.
  unfold py_min, py_max; intros; case_Rlt.
Qed.


Lemma clamp_in_range (self : ChaserApp) (x y : R) :
  in_clamp_range self (clamp_to_canvas self x y).
Proof.
  unfold in_clamp_range, clamp_to_canvas, clamp_lo, clamp_hi; simpl.
  split; apply clamp_coord_bounds.
Qed.

Lemma clamp_fixed (self : ChaserApp) (p : R * R) :
  in_clamp_range self p -> clamp_to_canvas self (fst p) (snd p) = p.
Proof.
  destruct p as [x y].
  unfold in_clamp_range, clamp_to_canvas, clamp_lo, clamp_hi; simpl.
  intros [Hx Hy].
  now rewrite !clamp_coord_fixed.
Qed.

(** ** What one run of [loop] reads and writes *)

Lemma update_cursor_canvas_geometry (self : ChaserApp) :
  sprite_item (canvas (update_cursor self)) = sprite_item (canvas self)
  /\ winfo_width (canvas (update_cursor self)) = winfo_width (canvas self)
  /\ winfo_height (canvas (update_cursor self)) = winfo_height (canvas self)
  /\ sprite_w (update_cursor self) = sprite_w self
  /\ sprite_h (update_cursor self) = sprite_h self
  /\ target (update_cursor self) = target self
  /\ vel (update_cursor self) = vel self
  /\ _running (update_cursor self) = _running self.
Proof.
  unfold update_cursor.
  destruct (pointer_over_sprite self), (_cursor_hidden self); simpl; auto 10.
Qed.

Lemma pointer_over_sprite_ext (s1 s2 : ChaserApp) :
  sprite_item (canvas s1) = sprite_item (canvas s2) ->
  sprite_w s1 = sprite_w s2 -> sprite_h s1 = sprite_h s2 ->
  target s1 = target s2 ->
  pointer_over_sprite s1 = pointer_over_sprite s2.
Proof.
  unfold pointer_over_sprite. intros -> -> -> ->. reflexivity.
Qed.

Lemma update_cursor_hidden (self : ChaserApp) :
  _cursor_hidden (update_cursor self) = pointer_over_sprite self
  /\ pointer_over_sprite (update_cursor self) = pointer_over_sprite self.
Proof.
  split.
  - unfold update_cursor.
    destruct (pointer_over_sprite self) eqn:Hp, (_cursor_hidden self) eqn:Hc;
      simpl; auto.
  - destruct (update_cursor_canvas_geometry self) as (H1 & _ & _ & H4 & H5 & H6 & _).
    now apply pointer_over_sprite_ext.
Qed.

Lemma loop_unfold (self : ChaserApp) (x y : R) :
  sprite_at self (x, y) -> loop self = update_cursor (moved self x y).
Proof.
  intros [Hr Hs]. unfold loop, moved, find_withtag.
  rewrite Hr, Hs. simpl.
  destruct (frame_velocity self x y) as [vx vy]. simpl.
  destruct (clamp_to_canvas self (x + vx) (y + vy)) as [nx ny]. reflexivity.
Qed.

Lemma loop_idle (self : ChaserApp) :
  _running self = false \/ sprite_item (canvas self) = None -> loop self = self.
Proof.
  unfold loop, find_withtag. intros [H | H]; rewrite H; simpl; auto.
  now rewrite orb_true_r.
Qed.

Lemma moved_fields (self : ChaserApp) (x y : R) :
  sprite_at self (x, y) ->
  sprite_item (canvas (moved self x y))
    = Some (clamp_to_canvas self (x + fst (frame_velocity self x y))
                                 (y + snd (frame_velocity self x y)))
  /\ winfo_width (canvas (moved self x y)) = winfo_width (canvas self)
  /\ winfo_height (canvas (moved self x y)) = winfo_height (canvas self)
  /\ sprite_w (moved self x y) = sprite_w self
  /\ sprite_h (moved self x y) = sprite_h self
  /\ target (moved self x y) = target self
  /\ _running (moved self x y) = _running self.
Proof.
  intros [Hr Hs]. unfold moved, coords_set. rewrite Hs.
  cbn [canvas winfo_width winfo_height sprite_item sprite_w sprite_h target
       _running with_canvas].
  rewrite <- surjective_pairing. auto 10.
Qed.

Lemma loop_fields (self : ChaserApp) (x y : R) :
  sprite_at self (x, y) ->
  sprite_item (canvas (loop self))
    = Some (clamp_to_canvas self (x + fst (frame_velocity self x y))
                                 (y + snd (frame_velocity self x y)))
  /\ winfo_width (canvas (loop self)) = winfo_width (canvas self)
  /\ winfo_height (canvas (loop self)) = winfo_height (canvas self)
  /\ sprite_w (loop self) = sprite_w self
  /\ sprite_h (loop self) = sprite_h self
  /\ target (loop self) = target self
  /\ _running (loop self) = _running self.
Proof.
  intros H. rewrite (loop_unfold _ _ _ H).
  destruct (update_cursor_canvas_geometry (moved self x y))
    as (U1 & U2 & U3 & U4 & U5 & U6 & _ & U8).
  destruct (moved_fields _ _ _ H) as (M1 & M2 & M3 & M4 & M5 & M6 & M7).
  rewrite U1, U2, U3, U4, U5, U6, U8. auto 10.
Qed.

(** ** The Euclidean norm *)


Lemma hypot_sqr (x y : R) : hypot x y * hypot x y = x * x + y * y.
Proof. unfold hypot. apply sqrt_sqrt. nra. Qed.

Lemma hypot_0 : hypot 0 0 = 0.
Proof.
  unfold hypot. replace (0 * 0 + 0 * 0) with 0 by lra. apply sqrt_0.
Qed.

Lemma hypot_scale (k x y : R) : 0 <= k -> hypot (x * k) (y * k) = k * hypot x y.
Proof.
  intros Hk. unfold hypot.
  replace (x * k * (x * k) + y * k * (y * k)) with (k * k * (x * x + y * y)) by ring.
  rewrite sqrt_mult by nra.
  now rewrite sqrt_square.
Qed.



(** Bounding a square root by comparing squares. *)
Lemma sqrt_above (a x : R) : 0 <= a -> a * a < x -> a < sqrt x.
Proof.
  intros Ha Hx. rewrite <- (sqrt_square a Ha). apply sqrt_lt_1; nra.
Qed.

Lemma sqrt_below (a x : R) : 0 <= a -> 0 <= x -> x < a * a -> sqrt x < a.
Proof.
  intros Ha H0 Hx. rewrite <- (sqrt_square a Ha). apply sqrt_lt_1; nra.
Qed.


(** ** The speed cap *)

Lemma cap_speed_slow (vx vy : R) :
  hypot vx vy <= MAX_SPEED -> cap_speed vx vy = (vx, vy).
Proof.
  intros H. unfold cap_speed.
  apply Rgtb_false in H. now rewrite H.
Qed.

Lemma cap_speed_fast (vx vy : R) :
  MAX_SPEED < hypot vx vy ->
  py_max (hypot vx vy) (1 / 1000000) = hypot vx vy
  /\ cap_speed vx vy = (vx * (MAX_SPEED / hypot vx vy), vy * (MAX_SPEED / hypot vx vy))
  /\ hypot (fst (cap_speed vx vy)) (snd (cap_speed vx vy)) = MAX_SPEED.
Proof.
  intros H. unfold MAX_SPEED in *.
  assert (Hm : py_max (hypot vx vy) (1 / 1000000) = hypot vx vy)
    by (unfold py_max; case_Rlt).
  assert (Hc : cap_speed vx vy
               = (vx * (18 / hypot vx vy), vy * (18 / hypot vx vy))).
  { unfold cap_speed, MAX_SPEED. rewrite Hm.
    apply Rgtb_true in H. now rewrite H. }
  repeat split; trivial.
  rewrite Hc. simpl. rewrite hypot_scale.
  - field. lra.
  - apply Rlt_le, Rdiv_lt_0_compat; lra.
Qed.


Lemma frame_velocity_eq (self : ChaserApp) (x y : R) :
  frame_velocity self x y
  = cap_speed ((fst (target self) - x) * TARGET_EASING)
              ((snd (target self) - y) * TARGET_EASING).
Proof. unfold frame_velocity. now destruct (target self). Qed.

Lemma frame_velocity_rest (self : ChaserApp) (x y : R) :
  target self = (x, y) -> frame_velocity self x y = (0, 0).
Proof.
  intros H. rewrite frame_velocity_eq, H. simpl.
  replace ((x - x) * TARGET_EASING) with 0 by ring.
  replace ((y - y) * TARGET_EASING) with 0 by ring.
  apply cap_speed_slow. rewrite hypot_0. unfold MAX_SPEED. lra.
Qed.

Lemma pointer_over_sprite_spec (self : ChaserApp) (c : R * R) :
  sprite_item (canvas self) = Some c ->
  pointer_over_sprite self = true <-> in_padded_box self c (target self).
Proof.
  intros H. unfold pointer_over_sprite, in_padded_box. rewrite H.
  destruct c as [sx sy], (target self) as [mx my]. simpl.
  rewrite !andb_true_iff, !Rleb_true. tauto.
Qed.

(** ** Clamping *)

(** C10: [clamp_to_canvas] is idempotent: for every point, every sprite size
    and every canvas size, clamping the clamped point gives it back. *)
Theorem clamp_to_canvas_idempotent (self : ChaserApp) (x y : R) :
  clamp_to_canvas self (fst (clamp_to_canvas self x y))
                       (snd (clamp_to_canvas self x y))
  = clamp_to_canvas self x y.
Proof. apply clamp_fixed, clamp_in_range. Qed.

(** C1: after every run of [loop] on a running application with its sprite,
    the committed centre lies, in each coordinate, between half the sprite
    size and [max(half, canvas - half)]; in a dimension where the canvas is
    smaller than the sprite it is exactly half the sprite size. *)
Theorem loop_position_clamped (self : ChaserApp) (x y : R) :
  sprite_at self (x, y) ->
  exists nx ny,
    sprite_item (canvas (loop self)) = Some (nx, ny)
    /\ sprite_w self / 2 <= nx
         <= py_max (sprite_w self / 2) (winfo_width (canvas self) - sprite_w self / 2)
    /\ sprite_h self / 2 <= ny
         <= py_max (sprite_h self / 2) (winfo_height (canvas self) - sprite_h self / 2)
    /\ (winfo_width (canvas self) < sprite_w self -> nx = sprite_w self / 2)
    /\ (winfo_height (canvas self) < sprite_h self -> ny = sprite_h self / 2).
Proof.
  intros H.
  destruct (loop_fields self x y H) as (Hc & _).
  set (v := frame_velocity self x y) in *.
  pose proof (clamp_in_range self (x + fst v) (y + snd v)) as [Hx Hy].
  destruct (clamp_to_canvas self (x + fst v) (y + snd v)) as [nx ny].
  unfold clamp_lo, clamp_hi in *. simpl in Hx, Hy.
  exists nx, ny. repeat split; try tauto.
  - intros Hw. unfold py_max in Hx. case_Rlt.
  - intros Hh. unfold py_max in Hy. case_Rlt.
Qed.

Lemma loop_position_clamped_witness :
  sprite_at (app 50 600 100 60 (450, 300) (0, 0)) (450, 300)
  /\ exists nx ny,
       sprite_item (canvas (loop (app 50 600 100 60 (450, 300) (0, 0)))) = Some (nx, ny)
       /\ 100 / 2 <= nx <= py_max (100 / 2) (50 - 100 / 2)
       /\ 60 / 2 <= ny <= py_max (60 / 2) (600 - 60 / 2)
       /\ (50 < 100 -> nx = 100 / 2)
       /\ (600 < 60 -> ny = 60 / 2).
Proof.
  split.
  - split; reflexivity.
  - apply (loop_position_clamped (app 50 600 100 60 (450, 300) (0, 0)) 450 300).
    split; reflexivity.
Defined.

(** One coordinate of [clamp_to_canvas] is the nearest point of the range
    from [half] to the larger of [half] and [ext - half]. *)
Lemma clamp_coord_nearest (x half ext : R) :
  nearest_in half (Rmax half (ext - half)) x
             (py_min (py_max x half) (py_max half (ext - half))).
Proof.
  rewrite <- py_max_Rmax. unfold nearest_in, py_min, py_max.
  split; [case_Rlt |].
  intros z Hz. unfold Rabs.
  repeat destruct (Rcase_abs _); revert Hz; case_Rlt.
Qed.

(** C8: the resize handler reclamps the sprite at once.  Whatever the new
    canvas size, [on_resize] leaves the sprite at the point of the new
    range nearest to its old centre, coordinate by coordinate: a centre in
    range is kept, a centre outside goes to the bound it is beyond.  With
    the centre at (10,10), a 100x60 sprite and the canvas shrunk to 60x50
    the new centre is (50,30), half the sprite size in each dimension. *)
Theorem on_resize_reclamps :
  (forall (self : ChaserApp) (w h x y : R),
      sprite_item (canvas self) = Some (x, y) ->
      exists self' nx ny,
        on_resize (resize_canvas self w h) = Some self'
        /\ sprite_item (canvas self') = Some (nx, ny)
        /\ winfo_width (canvas self') = w /\ winfo_height (canvas self') = h
        /\ nearest_in (sprite_w self / 2)
                      (Rmax (sprite_w self / 2) (w - sprite_w self / 2)) x nx
        /\ nearest_in (sprite_h self / 2)
                      (Rmax (sprite_h self / 2) (h - sprite_h self / 2)) y ny
        /\ (sprite_w self / 2 <= x <= Rmax (sprite_w self / 2) (w - sprite_w self / 2)
            -> nx = x)
        /\ (sprite_h self / 2 <= y <= Rmax (sprite_h self / 2) (h - sprite_h self / 2)
            -> ny = y)
        /\ (x < sprite_w self / 2 -> nx = sprite_w self / 2)
        /\ (y < sprite_h self / 2 -> ny = sprite_h self / 2)
        /\ (Rmax (sprite_w self / 2) (w - sprite_w self / 2) < x
            -> nx = Rmax (sprite_w self / 2) (w - sprite_w self / 2))
        /\ (Rmax (sprite_h self / 2) (h - sprite_h self / 2) < y
            -> ny = Rmax (sprite_h self / 2) (h - sprite_h self / 2)))
  /\ exists self',
       on_resize (resize_canvas (app 900 600 100 60 (10, 10) (450, 300)) 60 50)
         = Some self'
       /\ sprite_item (canvas self') = Some (50, 30).
Proof.
  assert (G : forall (self : ChaserApp) (w h x y : R),
      sprite_item (canvas self) = Some (x, y) ->
      exists self',
        on_resize (resize_canvas self w h) = Some self'
        /\ sprite_item (canvas self')
           = Some (clamp_to_canvas (resize_canvas self w h) x y)
        /\ winfo_width (canvas self') = w /\ winfo_height (canvas self') = h).
  { intros self w h x y Hs.
    set (r := resize_canvas self w h).
    assert (Hr : sprite_item (canvas r) = Some (x, y)) by exact Hs.
    unfold on_resize. rewrite Hr.
    destruct (clamp_to_canvas r x y) as [nx ny] eqn:Hc.
    destruct (Reqb nx x && Reqb ny y) eqn:Hb.
    - apply andb_true_iff in Hb. destruct Hb as [Hx Hy].
      apply Reqb_true in Hx, Hy. subst nx ny.
      exists r. repeat split; trivial.
    - exists (with_canvas r (coords_set (canvas r) nx ny)).
      unfold coords_set. rewrite Hr. repeat split; trivial. }
  split.
  - intros self w h x y Hs.
    destruct (G self w h x y Hs) as (s' & H1 & H2 & H3 & H4).
    pose proof (clamp_coord_nearest x (sprite_w self / 2) w) as Nx.
    pose proof (clamp_coord_nearest y (sprite_h self / 2) h) as Ny.
    exists s', (py_min (py_max x (sprite_w self / 2))
                       (py_max (sprite_w self / 2) (w - sprite_w self / 2))),
               (py_min (py_max y (sprite_h self / 2))
                       (py_max (sprite_h self / 2) (h - sprite_h self / 2))).
    split; [exact H1 |]. split; [exact H2 |].
    split; [exact H3 |]. split; [exact H4 |].
    split; [exact Nx |]. split; [exact Ny |].
    rewrite <- !py_max_Rmax. unfold py_min, py_max.
    repeat split; intros; case_Rlt.
  - destruct (G (app 900 600 100 60 (10, 10) (450, 300)) 60 50 10 10 eq_refl)
      as (s' & H1 & H2 & _).
    exists s'. split; [exact H1 |]. rewrite H2. f_equal.
    unfold clamp_to_canvas, py_min, py_max. simpl. f_equal; case_Rlt.
Qed.

Lemma on_resize_reclamps_witness :
  let self := app 900 600 100 60 (10, 10) (450, 300) in
  sprite_item (canvas self) = Some (10, 10)
  /\ exists self' nx ny,
       on_resize (resize_canvas self 60 50) = Some self'
       /\ sprite_item (canvas self') = Some (nx, ny)
       /\ winfo_width (canvas self') = 60 /\ winfo_height (canvas self') = 50
       /\ nearest_in (100 / 2) (Rmax (100 / 2) (60 - 100 / 2)) 10 nx
       /\ nearest_in (60 / 2) (Rmax (60 / 2) (50 - 60 / 2)) 10 ny
       /\ (100 / 2 <= 10 <= Rmax (100 / 2) (60 - 100 / 2) -> nx = 10)
       /\ (60 / 2 <= 10 <= Rmax (60 / 2) (50 - 60 / 2) -> ny = 10)
       /\ (10 < 100 / 2 -> nx = 100 / 2)
       /\ (10 < 60 / 2 -> ny = 60 / 2)
       /\ (Rmax (100 / 2) (60 - 100 / 2) < 10 -> nx = Rmax (100 / 2) (60 - 100 / 2))
       /\ (Rmax (60 / 2) (50 - 60 / 2) < 10 -> ny = Rmax (60 / 2) (50 - 60 / 2)).
Proof.
  intros self.
  split.
  - reflexivity.
  - apply (proj1 on_resize_reclamps self 60 50 10 10). reflexivity.
Defined.

(** ** At rest *)

(** C6, as amended: when the sprite centre equals the target and lies in the
    clamp range of the canvas, a run of [loop] leaves the centre where it
    is. *)
Theorem loop_at_rest (self : ChaserApp) (p : R * R) :
  sprite_at self p ->
  target self = p ->
  in_clamp_range self p ->
  sprite_item (canvas (loop self)) = Some p.
Proof.
  destruct p as [x y]. intros H Ht Hin.
  destruct (loop_fields self x y H) as (Hc & _).
  rewrite Hc, (frame_velocity_rest self x y Ht). simpl.
  rewrite !Rplus_0_r. f_equal. exact (clamp_fixed self (x, y) Hin).
Qed.

Lemma loop_at_rest_witness :
  sprite_at (app 900 600 100 60 (450, 300) (450, 300)) (450, 300)
  /\ target (app 900 600 100 60 (450, 300) (450, 300)) = (450, 300)
  /\ in_clamp_range (app 900 600 100 60 (450, 300) (450, 300)) (450, 300)
  /\ sprite_item (canvas (loop (app 900 600 100 60 (450, 300) (450, 300))))
     = Some (450, 300).
Proof.
  assert (Hin : in_clamp_range (app 900 600 100 60 (450, 300) (450, 300)) (450, 300)).
  { unfold in_clamp_range, clamp_lo, clamp_hi, py_max. simpl.
    split; case_Rlt. }
  split; [split; reflexivity |].
  split; [reflexivity |].
  split; [exact Hin |].
  apply (loop_at_rest (app 900 600 100 60 (450, 300) (450, 300)) (450, 300)).
  - split; reflexivity.
  - reflexivity.
  - exact Hin.
Defined.

(** C6, as stated, fails: on the first timer callback the canvas is not yet
    laid out and reports the size 1x1, the sprite and the target are both at
    the window centre (450,300), and [loop] moves the sprite to (50,30). *)
Lemma loop_at_rest_counterexample :
  sprite_at (app 1 1 100 60 (450, 300) (450, 300)) (450, 300)
  /\ target (app 1 1 100 60 (450, 300) (450, 300)) = (450, 300)
  /\ sprite_item (canvas (loop (app 1 1 100 60 (450, 300) (450, 300))))
     = Some (50, 30)
  /\ (50, 30) <> (450, 300).
Proof.
  assert (H : sprite_at (app 1 1 100 60 (450, 300) (450, 300)) (450, 300))
    by (split; reflexivity).
  repeat split.
  - destruct (loop_fields _ _ _ H) as (Hc & _). rewrite Hc.
    rewrite (frame_velocity_rest (app 1 1 100 60 (450, 300) (450, 300))
               450 300 eq_refl).
    unfold clamp_to_canvas, py_min, py_max. simpl.
    f_equal. f_equal; case_Rlt.
  - intros E. injection E as E1 E2. lra.
Qed.

(** ** Pointer over sprite *)

(** C7: after a run of [loop] the cursor is hidden exactly when the target
    lies, bounds included, in the sprite box grown by [POINTER_PADDING]
    around the new centre.  With the new centre at (100,100), a 40x40 sprite
    and padding 2, the target (122,122) is over the sprite and the target
    (123,100) is not. *)
Theorem hide_cursor_padded_box :
  (forall (self : ChaserApp) (x y : R),
      sprite_at self (x, y) ->
      exists c,
        sprite_item (canvas (loop self)) = Some c
        /\ _cursor_hidden (loop self) = pointer_over_sprite (loop self)
        /\ (pointer_over_sprite (loop self) = true
            <-> in_padded_box self c (target self)))
  /\ POINTER_PADDING = 2
  /\ pointer_over_sprite (app 900 600 40 40 (100, 100) (122, 122)) = true
  /\ pointer_over_sprite (app 900 600 40 40 (100, 100) (123, 100)) = false
  /\ sprite_item (canvas (loop (app 120 120 40 40 (100, 100) (122, 122))))
     = Some (100, 100)
  /\ _cursor_hidden (loop (app 120 120 40 40 (100, 100) (122, 122))) = true
  /\ sprite_item (canvas (loop (app 120 120 40 40 (100, 100) (123, 100))))
     = Some (100, 100)
  /\ _cursor_hidden (loop (app 120 120 40 40 (100, 100) (123, 100))) = false.
Proof.
  assert (G : forall (self : ChaserApp) (x y : R),
      sprite_at self (x, y) ->
      exists c,
        sprite_item (canvas (loop self)) = Some c
        /\ _cursor_hidden (loop self) = pointer_over_sprite (loop self)
        /\ (pointer_over_sprite (loop self) = true
            <-> in_padded_box self c (target self))).
  { intros self x y H.
    destruct (loop_fields self x y H) as (Hc & _ & _ & Hw & Hh & Ht & _).
    eexists. split; [exact Hc |]. split.
    - rewrite (loop_unfold _ _ _ H).
      destruct (update_cursor_hidden (moved self x y)) as [-> ->]. reflexivity.
    - rewrite (pointer_over_sprite_spec _ _ Hc).
      unfold in_padded_box. rewrite Hw, Hh, Ht. tauto. }
  assert (P1 : pointer_over_sprite (app 900 600 40 40 (100, 100) (122, 122)) = true).
  { apply (pointer_over_sprite_spec
             (app 900 600 40 40 (100, 100) (122, 122)) (100, 100) eq_refl).
    unfold in_padded_box, POINTER_PADDING. simpl. lra. }
  assert (P2 : pointer_over_sprite (app 900 600 40 40 (100, 100) (123, 100)) = false).
  { apply not_true_is_false. intros E.
    apply (pointer_over_sprite_spec
             (app 900 600 40 40 (100, 100) (123, 100)) (100, 100) eq_refl) in E.
    unfold in_padded_box, POINTER_PADDING in E. simpl in E. lra. }
  assert (V1 : frame_velocity (app 120 120 40 40 (100, 100) (122, 122)) 100 100
               = ((122 - 100) * TARGET_EASING, (122 - 100) * TARGET_EASING)).
  { rewrite frame_velocity_eq. apply cap_speed_slow. simpl.
    unfold hypot, TARGET_EASING, MAX_SPEED.
    apply Rlt_le, sqrt_below; lra. }
  assert (V2 : frame_velocity (app 120 120 40 40 (100, 100) (123, 100)) 100 100
               = ((123 - 100) * TARGET_EASING, (100 - 100) * TARGET_EASING)).
  { rewrite frame_velocity_eq. apply cap_speed_slow. simpl.
    unfold hypot, TARGET_EASING, MAX_SPEED.
    apply Rlt_le, sqrt_below; lra. }
  assert (C1 : sprite_item (canvas (loop (app 120 120 40 40 (100, 100) (122, 122))))
               = Some (100, 100)).
  { destruct (loop_fields (app 120 120 40 40 (100, 100) (122, 122)) 100 100)
      as (Hc & _); [split; reflexivity |].
    rewrite Hc, V1.
    unfold clamp_to_canvas, py_min, py_max, TARGET_EASING. simpl.
    f_equal. f_equal; case_Rlt. }
  assert (C2 : sprite_item (canvas (loop (app 120 120 40 40 (100, 100) (123, 100))))
               = Some (100, 100)).
  { destruct (loop_fields (app 120 120 40 40 (100, 100) (123, 100)) 100 100)
      as (Hc & _); [split; reflexivity |].
    rewrite Hc, V2.
    unfold clamp_to_canvas, py_min, py_max, TARGET_EASING. simpl.
    f_equal. f_equal; case_Rlt. }
  split; [exact G |].
  split; [reflexivity |].
  split; [exact P1 |].
  split; [exact P2 |].
  split; [exact C1 |].
  split.
  { destruct (G (app 120 120 40 40 (100, 100) (122, 122)) 100 100)
      as (c & Hc & Hh & Hb); [split; reflexivity |].
    rewrite Hh. apply Hb. rewrite C1 in Hc. injection Hc as <-.
    unfold in_padded_box, POINTER_PADDING. simpl. lra. }
  split; [exact C2 |].
  destruct (G (app 120 120 40 40 (100, 100) (123, 100)) 100 100)
    as (c & Hc & Hh & Hb); [split; reflexivity |].
  rewrite Hh. apply not_true_is_false. intros E. apply Hb in E.
  rewrite C2 in Hc. injection Hc as <-.
  unfold in_padded_box, POINTER_PADDING in E. simpl in E. lra.
Qed.

Lemma hide_cursor_padded_box_witness :
  sprite_at (app 120 120 40 40 (100, 100) (122, 122)) (100, 100)
  /\ exists c,
       sprite_item (canvas (loop (app 120 120 40 40 (100, 100) (122, 122)))) = Some c
       /\ _cursor_hidden (loop (app 120 120 40 40 (100, 100) (122, 122)))
          = pointer_over_sprite (loop (app 120 120 40 40 (100, 100) (122, 122)))
       /\ (pointer_over_sprite (loop (app 120 120 40 40 (100, 100) (122, 122))) = true
           <-> in_padded_box (app 120 120 40 40 (100, 100) (122, 122)) c (122, 122)).
Proof.
  split.
  - split; reflexivity.
  - apply (proj1 hide_cursor_padded_box
             (app 120 120 40 40 (100, 100) (122, 122)) 100 100).
    split; reflexivity.
Defined.

(** ** No state carried from frame to frame *)

(** C9: the new centre and the cursor flag after a run of [loop] depend only
    on the old centre, the target and the canvas size (for a given sprite
    size): two running applications that agree on these agree on both
    results, whatever their [vel], [_cursor_hidden] and cursor were. *)
Theorem loop_depends_on_position_target_canvas (s1 s2 : ChaserApp) (p : R * R) :
  sprite_at s1 p -> sprite_at s2 p ->
  target s1 = target s2 ->
  winfo_width (canvas s1) = winfo_width (canvas s2) ->
  winfo_height (canvas s1) = winfo_height (canvas s2) ->
  sprite_w s1 = sprite_w s2 -> sprite_h s1 = sprite_h s2 ->
  sprite_item (canvas (loop s1)) = sprite_item (canvas (loop s2))
  /\ pointer_over_sprite (loop s1) = pointer_over_sprite (loop s2)
  /\ _cursor_hidden (loop s1) = _cursor_hidden (loop s2).
Proof.
  destruct p as [x y]. intros H1 H2 Ht Hw Hh Hsw Hsh.
  destruct (loop_fields s1 x y H1) as (C1 & _ & _ & W1 & E1 & T1 & _).
  destruct (loop_fields s2 x y H2) as (C2 & _ & _ & W2 & E2 & T2 & _).
  assert (Hc : sprite_item (canvas (loop s1)) = sprite_item (canvas (loop s2))).
  { rewrite C1, C2, !frame_velocity_eq, Ht.
    unfold clamp_to_canvas. now rewrite Hw, Hh, Hsw, Hsh. }
  assert (Hp : pointer_over_sprite (loop s1) = pointer_over_sprite (loop s2)).
  { apply pointer_over_sprite_ext; congruence. }
  repeat split; trivial.
  rewrite (loop_unfold _ _ _ H1), (loop_unfold _ _ _ H2).
  destruct (update_cursor_hidden (moved s1 x y)) as [-> <-].
  destruct (update_cursor_hidden (moved s2 x y)) as [-> <-].
  rewrite <- (loop_unfold _ _ _ H1), <- (loop_unfold _ _ _ H2). exact Hp.
Qed.

Lemma loop_depends_on_position_target_canvas_witness :
  let s1 := mkChaserApp (mkCanvas 900 600 (Some (450, 300)) "none")
                        100 60 (0, 0) (3, 4) true true in
  let s2 := app 900 600 100 60 (450, 300) (0, 0) in
  vel s1 <> vel s2
  /\ _cursor_hidden s1 <> _cursor_hidden s2
  /\ sprite_item (canvas (loop s1)) = sprite_item (canvas (loop s2))
  /\ pointer_over_sprite (loop s1) = pointer_over_sprite (loop s2)
  /\ _cursor_hidden (loop s1) = _cursor_hidden (loop s2).
Proof.
  intros s1 s2.
  split; [intros E; injection E as E1 E2; lra |].
  split; [discriminate |].
  apply (loop_depends_on_position_target_canvas s1 s2 (450, 300));
    try reflexivity; split; reflexivity.
Defined.

(** ** The speed cap inside a frame *)




(** C4: canvas 900x600, sprite 100x60 (half size (50,30)), centre (450,300),
    target (0,0).  One run of [loop] has [dx = -450], [dy = -300], the
    desired velocity (-67.5,-45) of norm above 18, a capped velocity of norm
    18 within 0.01 of (-14.98,-9.99), and commits the tentative position
    itself, which is in range and within 0.01 of (435.02,290.01). *)
Theorem scenario_one_frame :
  let self := app 900 600 100 60 (450, 300) (0, 0) in
  let dx := fst (target self) - 450 in
  let dy := snd (target self) - 300 in
  dx = -450 /\ dy = -300
  /\ dx * TARGET_EASING = -675 / 10 /\ dy * TARGET_EASING = -45
  /\ MAX_SPEED < hypot (dx * TARGET_EASING) (dy * TARGET_EASING)
  /\ exists vx vy,
       frame_velocity self 450 300 = (vx, vy)
       /\ hypot vx vy = 18
       /\ Rabs (vx - -1498 / 100) < 1 / 100
       /\ Rabs (vy - -999 / 100) < 1 / 100
       /\ in_clamp_range self (450 + vx, 300 + vy)
       /\ sprite_item (canvas (loop self)) = Some (450 + vx, 300 + vy)
       /\ Rabs (450 + vx - 43502 / 100) < 1 / 100
       /\ Rabs (300 + vy - 29001 / 100) < 1 / 100.
Proof.
  intros self dx dy.
  assert (Hdx : dx = -450) by (unfold dx; simpl; lra).
  assert (Hdy : dy = -300) by (unfold dy; simpl; lra).
  assert (Hvx : dx * TARGET_EASING = -675 / 10)
    by (rewrite Hdx; unfold TARGET_EASING; lra).
  assert (Hvy : dy * TARGET_EASING = -45)
    by (rewrite Hdy; unfold TARGET_EASING; lra).
  rewrite Hvx, Hvy.
  set (speed := hypot (-675 / 10) (-45)).
  assert (Hlo : 8112 / 100 < speed)
    by (unfold speed, hypot; apply sqrt_above; lra).
  assert (Hhi : speed < 8113 / 100)
    by (unfold speed, hypot; apply sqrt_below; lra).
  assert (Hfast : MAX_SPEED < speed) by (unfold MAX_SPEED; lra).
  destruct (cap_speed_fast (-675 / 10) (-45) Hfast) as (_ & Hc & Hn).
  fold speed in Hc.
  assert (Hv : frame_velocity self 450 300
               = (-675 / 10 * (MAX_SPEED / speed), -45 * (MAX_SPEED / speed))).
  { rewrite frame_velocity_eq. fold dx dy. rewrite Hvx, Hvy. exact Hc. }
  rewrite Hc in Hn. simpl in Hn.
  set (k := MAX_SPEED / speed) in *.
  assert (Hk : k * speed = 18) by (unfold k, MAX_SPEED; field; lra).
  assert (Hk1 : 2218 / 10000 < k) by nra.
  assert (Hk2 : k < 2219 / 10000) by nra.
  assert (Hin : in_clamp_range self (450 + -675 / 10 * k, 300 + -45 * k)).
  { unfold in_clamp_range, clamp_lo, clamp_hi, py_max. simpl.
    split; case_Rlt. }
  repeat split; trivial.
  exists (-675 / 10 * k), (-45 * k).
  split; [exact Hv |].
  split; [exact Hn |].
  split; [apply Rabs_def1; lra |].
  split; [apply Rabs_def1; lra |].
  split; [exact Hin |].
  split.
  - destruct (loop_fields self 450 300) as (Hl & _); [split; reflexivity |].
    rewrite Hl, Hv. simpl fst. simpl snd. f_equal.
    exact (clamp_fixed self _ Hin).
  - split; apply Rabs_def1; lra.
Qed.

(** ** Displacement of one frame *)





(** ** Approach to a target that stays put *)



Lemma run_S (n : nat) (self : ChaserApp) : run (S n) self = loop (run n self).
Proof. reflexivity. Qed.











(** * Further properties of the controller *)

(** ** More on the speed cap *)

(** The cap multiplies the desired velocity by a factor between 0 and 1. *)
Lemma cap_speed_factor (vx vy : R) :
  exists c,
    0 <= c <= 1
    /\ cap_speed vx vy = (vx * c, vy * c)
    /\ c * hypot vx vy = Rmin (hypot vx vy) MAX_SPEED.
Proof.
  destruct (Rlt_dec MAX_SPEED (hypot vx vy)) as [H | H].
  - destruct (cap_speed_fast vx vy H) as (_ & Hc & _).
    exists (MAX_SPEED / hypot vx vy).
    unfold MAX_SPEED in *.
    split; [split |]; [| | split; [exact Hc |]].
    + apply Rlt_le, Rdiv_lt_0_compat; lra.
    + apply Rmult_le_reg_r with (hypot vx vy); [lra |].
      unfold Rdiv. rewrite Rmult_assoc, Rinv_l by lra. lra.
    + rewrite Rmin_right by lra. field. lra.
  - exists 1. rewrite cap_speed_slow by lra.
    rewrite Rmin_left by lra. rewrite !Rmult_1_r, Rmult_1_l.
    repeat split; lra.
Qed.

(** X2: the guard [max(speed, 1e-6)] never takes effect: whenever the cap
    applies the divisor is [speed] itself, which is above [MAX_SPEED], so
    the cap is the desired velocity times [MAX_SPEED / speed] and no
    division by zero can occur. *)
Theorem cap_speed_guard_idle (vx vy : R) :
  cap_speed vx vy
  = if Rgtb (hypot vx vy) MAX_SPEED
    then (vx * (MAX_SPEED / hypot vx vy), vy * (MAX_SPEED / hypot vx vy))
    else (vx, vy).
Proof.
  destruct (Rgtb (hypot vx vy) MAX_SPEED) eqn:E.
  - apply Rgtb_true in E. now destruct (cap_speed_fast vx vy E) as (_ & Hc & _).
  - apply Rgtb_false in E. now apply cap_speed_slow.
Qed.

(** ** What the timer callbacks keep *)

(** X4: timer callbacks never stop the timer, remove the sprite, move the
    target or change the canvas and sprite sizes; and after at least one
    callback the sprite centre lies in the clamp range of the canvas. *)
Theorem run_keeps (n : nat) (self : ChaserApp) (p : R * R) :
  sprite_at self p ->
  exists q,
    sprite_at (run n self) q
    /\ target (run n self) = target self
    /\ winfo_width (canvas (run n self)) = winfo_width (canvas self)
    /\ winfo_height (canvas (run n self)) = winfo_height (canvas self)
    /\ sprite_w (run n self) = sprite_w self
    /\ sprite_h (run n self) = sprite_h self
    /\ ((0 < n)%nat -> in_clamp_range self q).
Proof.
  intros H. induction n as [| n IH].
  - exists p. simpl.
    split; [exact H |]. do 5 (split; [reflexivity |]). intros F. inversion F.
  - destruct IH as ([qx qy] & Hq & Ht & Hw & Hh & Hsw & Hsh & _).
    rewrite run_S.
    destruct (loop_fields (run n self) qx qy Hq)
      as (Hc & Lw & Lh & Lsw & Lsh & Lt & Lr).
    eexists. split; [split; [rewrite Lr; apply Hq | exact Hc] |].
    rewrite Lt, Lw, Lh, Lsw, Lsh. do 5 (split; [assumption |]).
    intros _. split; split.
    + pose proof (clamp_in_range (run n self)
                    (qx + fst (frame_velocity (run n self) qx qy))
                    (qy + snd (frame_velocity (run n self) qx qy))) as [Hx _].
      unfold clamp_lo in Hx. rewrite Hsw in Hx. apply Hx.
    + pose proof (clamp_in_range (run n self)
                    (qx + fst (frame_velocity (run n self) qx qy))
                    (qy + snd (frame_velocity (run n self) qx qy))) as [Hx _].
      unfold clamp_hi in Hx. rewrite Hsw, Hw in Hx. apply Hx.
    + pose proof (clamp_in_range (run n self)
                    (qx + fst (frame_velocity (run n self) qx qy))
                    (qy + snd (frame_velocity (run n self) qx qy))) as [_ Hy].
      unfold clamp_lo in Hy. rewrite Hsh in Hy. apply Hy.
    + pose proof (clamp_in_range (run n self)
                    (qx + fst (frame_velocity (run n self) qx qy))
                    (qy + snd (frame_velocity (run n self) qx qy))) as [_ Hy].
      unfold clamp_hi in Hy. rewrite Hsh, Hh in Hy. apply Hy.
Qed.

Lemma run_keeps_witness :
  let self := app 1 1 100 60 (450, 300) (450, 300) in
  sprite_at self (450, 300)
  /\ exists q,
       sprite_at (run 3 self) q
       /\ target (run 3 self) = target self
       /\ winfo_width (canvas (run 3 self)) = winfo_width (canvas self)
       /\ winfo_height (canvas (run 3 self)) = winfo_height (canvas self)
       /\ sprite_w (run 3 self) = sprite_w self
       /\ sprite_h (run 3 self) = sprite_h self
       /\ ((0 < 3)%nat -> in_clamp_range self q).
Proof.
  intros self.
  split; [split; reflexivity |].
  apply (run_keeps 3 self (450, 300)). split; reflexivity.
Defined.

(** ** The resize handler *)

Lemma clamp_to_canvas_fixed_point (self : ChaserApp) (x y : R) :
  clamp_to_canvas self (fst (clamp_to_canvas self x y))
                       (snd (clamp_to_canvas self x y))
  = clamp_to_canvas self x y.
Proof. apply clamp_fixed, clamp_in_range. Qed.

Lemma on_resize_cases (self : ChaserApp) (x y : R) :
  sprite_item (canvas self) = Some (x, y) ->
  (clamp_to_canvas self x y = (x, y) /\ on_resize self = Some self)
  \/ (clamp_to_canvas self x y <> (x, y)
      /\ on_resize self
         = Some (with_canvas self
                   (mkCanvas (winfo_width (canvas self)) (winfo_height (canvas self))
                             (Some (clamp_to_canvas self x y))
                             (cursor (canvas self))))).
Proof.
  intros Hs. unfold on_resize, coords_set. rewrite Hs.
  destruct (clamp_to_canvas self x y) as [nx ny].
  destruct (Reqb nx x && Reqb ny y) eqn:Hb.
  - left. apply andb_true_iff in Hb. destruct Hb as [Hx Hy].
    apply Reqb_true in Hx, Hy. subst. auto.
  - right. split; [| reflexivity].
    intros E. injection E as -> ->.
    assert (T : Reqb x x && Reqb y y = true)
      by (apply andb_true_iff; split; now apply Reqb_true).
    congruence.
Qed.

(** X5: [on_resize] writes nothing when the sprite is already in the clamp
    range, and running it a second time never changes its result. *)
Theorem on_resize_settles (self : ChaserApp) (p : R * R) :
  sprite_item (canvas self) = Some p ->
  (in_clamp_range self p -> on_resize self = Some self)
  /\ exists self', on_resize self = Some self' /\ on_resize self' = Some self'.
Proof.
  destruct p as [x y]. intros Hs.
  destruct (on_resize_cases self x y Hs) as [[Hc Hr] | [Hc Hr]].
  - split; [intros _; exact Hr |]. exists self. auto.
  - split.
    + intros Hin. exfalso. apply Hc. exact (clamp_fixed self (x, y) Hin).
    + eexists. split; [exact Hr |].
      set (q := clamp_to_canvas self x y) in *.
      set (s' := with_canvas self _).
      assert (Hq : sprite_item (canvas s') = Some (fst q, snd q))
        by exact (f_equal Some (surjective_pairing q)).
      destruct (on_resize_cases s' (fst q) (snd q) Hq) as [[_ E] | [N _]];
        [exact E |].
      exfalso. apply N.
      change (clamp_to_canvas self (fst q) (snd q) = (fst q, snd q)).
      transitivity q; [exact (clamp_to_canvas_fixed_point self x y) |].
      apply surjective_pairing.
Qed.

Lemma on_resize_settles_witness :
  let self := resize_canvas (app 900 600 100 60 (10, 10) (450, 300)) 60 50 in
  sprite_item (canvas self) = Some (10, 10)
  /\ (in_clamp_range self (10, 10) -> on_resize self = Some self)
  /\ exists self', on_resize self = Some self' /\ on_resize self' = Some self'.
Proof.
  intros self.
  split; [reflexivity |].
  apply (on_resize_settles self (10, 10)). reflexivity.
Defined.

(** X6: [on_resize] moves the sprite and nothing else: the target, the
    cursor option, [_cursor_hidden], [_running] and all sizes stay as they
    were, so the cursor is not re-evaluated before the next timer
    callback. *)
Theorem on_resize_frame (self self' : ChaserApp) :
  on_resize self = Some self' ->
  target self' = target self
  /\ cursor (canvas self') = cursor (canvas self)
  /\ _cursor_hidden self' = _cursor_hidden self
  /\ _running self' = _running self
  /\ winfo_width (canvas self') = winfo_width (canvas self)
  /\ winfo_height (canvas self') = winfo_height (canvas self)
  /\ sprite_w self' = sprite_w self /\ sprite_h self' = sprite_h self.
Proof.
  intros H.
  destruct (sprite_item (canvas self)) as [[x y] |] eqn:Hs.
  - destruct (on_resize_cases self x y Hs) as [[_ Hr] | [_ Hr]];
      rewrite Hr in H; injection H as <-; simpl; auto 10.
  - unfold on_resize in H. rewrite Hs in H. discriminate.
Qed.

Lemma on_resize_frame_witness :
  let self := resize_canvas (app 900 600 100 60 (10, 10) (450, 300)) 60 50 in
  let self' := with_canvas self (mkCanvas 60 50 (Some (50, 30)) CURSOR_NORMAL) in
  on_resize self = Some self'
  /\ target self' = target self
  /\ cursor (canvas self') = cursor (canvas self)
  /\ _cursor_hidden self' = _cursor_hidden self
  /\ _running self' = _running self
  /\ winfo_width (canvas self') = winfo_width (canvas self)
  /\ winfo_height (canvas self') = winfo_height (canvas self)
  /\ sprite_w self' = sprite_w self /\ sprite_h self' = sprite_h self.
Proof.
  intros self self'.
  assert (H : on_resize self = Some self').
  { assert (Hc : clamp_to_canvas self 10 10 = (50, 30)).
    { unfold clamp_to_canvas, py_min, py_max. simpl. f_equal; case_Rlt. }
    destruct (on_resize_cases self 10 10 eq_refl) as [[Hc' _] | [_ Hr]].
    - exfalso. rewrite Hc in Hc'. injection Hc' as Hx Hy. lra.
    - rewrite Hr, Hc. reflexivity. }
  split; [exact H |].
  exact (on_resize_frame self self' H).
Defined.

(** ** Approach to a target inside the clamp range *)







(** ** No overshoot *)

Lemma clamp_coord_mono (a b half ext : R) :
  a <= b ->
  py_min (py_max a half) (py_max half (ext - half))
  <= py_min (py_max b half) (py_max half (ext - half)).
Proof. unfold py_min, py_max; intros; case_Rlt. Qed.

(** A coordinate moved a fraction [k] of the way to the target and then
    clamped lies between where it was and the clamped target. *)
Lemma step_coord_between (x t k half ext : R) :
  half <= x <= py_max half (ext - half) ->
  0 <= k <= 1 ->
  let q := py_min (py_max (x + (t - x) * k) half) (py_max half (ext - half)) in
  let ct := py_min (py_max t half) (py_max half (ext - half)) in
  (x <= q <= ct) \/ (ct <= q <= x).
Proof.
  intros Hx Hk q ct.
  pose proof (clamp_coord_fixed x half ext Hx) as Fx.
  unfold q, ct.
  destruct (Rle_dec x t) as [L | L].
  - pose proof (clamp_coord_mono x (x + (t - x) * k) half ext) as M1.
    pose proof (clamp_coord_mono (x + (t - x) * k) t half ext) as M2.
    rewrite Fx in M1. left. split; [apply M1 | apply M2]; nra.
  - pose proof (clamp_coord_mono (x + (t - x) * k) x half ext) as M1.
    pose proof (clamp_coord_mono t (x + (t - x) * k) half ext) as M2.
    rewrite Fx in M1. right. split; [apply M2 | apply M1]; nra.
Qed.

Lemma loop_between (self : ChaserApp) (p : R * R) :
  sprite_at self p ->
  in_clamp_range self p ->
  exists q,
    sprite_item (canvas (loop self)) = Some q
    /\ let ct := clamp_to_canvas self (fst (target self)) (snd (target self)) in
       ((fst p <= fst q <= fst ct) \/ (fst ct <= fst q <= fst p))
       /\ ((snd p <= snd q <= snd ct) \/ (snd ct <= snd q <= snd p)).
Proof.
  destruct p as [x y]. intros H [Hx Hy].
  unfold clamp_lo, clamp_hi in Hx, Hy. cbn [fst snd] in Hx, Hy.
  destruct (loop_fields self x y H) as (Hc & _).
  eexists. split; [exact Hc |].
  rewrite frame_velocity_eq.
  destruct (cap_speed_factor ((fst (target self) - x) * TARGET_EASING)
                             ((snd (target self) - y) * TARGET_EASING))
    as (c & Hc01 & -> & _).
  assert (Hk : 0 <= TARGET_EASING * c <= 1) by (unfold TARGET_EASING; nra).
  unfold clamp_to_canvas. cbn [fst snd]. rewrite !Rmult_assoc. split.
  - exact (step_coord_between x (fst (target self)) _ _ _ Hx Hk).
  - exact (step_coord_between y (snd (target self)) _ _ _ Hy Hk).
Qed.

(** X10: a sprite inside the clamp range never overshoots: after a timer
    callback each coordinate of its centre lies between the old coordinate
    and that coordinate of the target clamped into the range. *)
Theorem loop_no_overshoot (self : ChaserApp) (p : R * R) :
  sprite_at self p ->
  in_clamp_range self p ->
  exists q,
    sprite_item (canvas (loop self)) = Some q
    /\ let ct := clamp_to_canvas self (fst (target self)) (snd (target self)) in
       ((fst p <= fst q <= fst ct) \/ (fst ct <= fst q <= fst p))
       /\ ((snd p <= snd q <= snd ct) \/ (snd ct <= snd q <= snd p)).
Proof. apply loop_between. Qed.

Lemma loop_no_overshoot_witness :
  let self := app 900 600 100 60 (450, 300) (0, 700) in
  sprite_at self (450, 300)
  /\ in_clamp_range self (450, 300)
  /\ exists q,
       sprite_item (canvas (loop self)) = Some q
       /\ let ct := clamp_to_canvas self (fst (target self)) (snd (target self)) in
          ((450 <= fst q <= fst ct) \/ (fst ct <= fst q <= 450))
          /\ ((300 <= snd q <= snd ct) \/ (snd ct <= snd q <= 300)).
Proof.
  intros self.
  assert (H : sprite_at self (450, 300)) by (split; reflexivity).
  assert (Hin : in_clamp_range self (450, 300)).
  { unfold in_clamp_range, clamp_lo, clamp_hi, py_max. simpl.
    split; case_Rlt. }
  split; [exact H |]. split; [exact Hin |].
  exact (loop_no_overshoot self (450, 300) H Hin).
Defined.

(** X11: wherever the pointer is, inside the canvas or not, the point of
    the clamp range nearest to it (the clamped target) is a resting place:
    a sprite that sits there is not moved by a timer callback. *)
Theorem loop_rests_at_clamped_target (self : ChaserApp) (p : R * R) :
  sprite_at self p ->
  p = clamp_to_canvas self (fst (target self)) (snd (target self)) ->
  sprite_item (canvas (loop self)) = Some p.
Proof.
  intros H Hp.
  assert (Hin : in_clamp_range self p) by (rewrite Hp; apply clamp_in_range).
  destruct (loop_between self p H Hin) as (q & Hq & Bx & By).
  rewrite <- Hp in Bx, By.
  rewrite Hq. f_equal. destruct p, q. cbn [fst snd] in *. f_equal; lra.
Qed.

Lemma loop_rests_at_clamped_target_witness :
  let self := app 900 600 100 60 (50, 300) (0, 300) in
  sprite_at self (50, 300)
  /\ (50, 300) = clamp_to_canvas self (fst (target self)) (snd (target self))
  /\ sprite_item (canvas (loop self)) = Some (50, 300).
Proof.
  intros self.
  assert (H : sprite_at self (50, 300)) by (split; reflexivity).
  assert (Hp : (50, 300)
               = clamp_to_canvas self (fst (target self)) (snd (target self))).
  { unfold clamp_to_canvas, py_min, py_max. simpl. f_equal; case_Rlt. }
  split; [exact H |]. split; [exact Hp |].
  exact (loop_rests_at_clamped_target self (50, 300) H Hp).
Defined.

(** ** The cursor *)

Lemma update_cursor_in_step (self : ChaserApp) :
  cursor_in_step self -> cursor_in_step (update_cursor self).
Proof.
  unfold cursor_in_step, update_cursor. intros H.
  destruct (pointer_over_sprite self), (_cursor_hidden self) eqn:E;
    cbn [negb]; cbn; rewrite ?E; auto.
Qed.

Lemma moved_cursor (self : ChaserApp) (x y : R) :
  cursor (canvas (moved self x y)) = cursor (canvas self)
  /\ _cursor_hidden (moved self x y) = _cursor_hidden self.
Proof.
  unfold moved, coords_set.
  destruct (sprite_item (canvas self)); simpl; auto.
Qed.

Lemma loop_in_step (self : ChaserApp) :
  cursor_in_step self -> cursor_in_step (loop self).
Proof.
  intros H.
  destruct (_running self) eqn:Hr;
    [| rewrite loop_idle by (now left); exact H].
  destruct (sprite_item (canvas self)) as [[x y] |] eqn:Hs;
    [| rewrite loop_idle by (now right); exact H].
  rewrite (loop_unfold self x y (conj Hr Hs)).
  apply update_cursor_in_step.
  unfold cursor_in_step.
  destruct (moved_cursor self x y) as [-> ->]. exact H.
Qed.

(** X12: as long as only timer callbacks, pointer moves and resizes occur,
    the cursor option and [_cursor_hidden] stay in step, and after every
    timer callback the cursor is hidden exactly when the pointer is over
    the sprite. *)
Theorem cursor_follows_pointer (self : ChaserApp) (p : R * R) :
  cursor_in_step self ->
  (forall ex ey, cursor_in_step (on_mouse_move self ex ey))
  /\ (forall self', on_resize self = Some self' -> cursor_in_step self')
  /\ cursor_in_step (loop self)
  /\ (sprite_at self p ->
      cursor (canvas (loop self))
      = if pointer_over_sprite (loop self) then "none"%string else CURSOR_NORMAL).
Proof.
  intros H. split; [intros; exact H |]. split; [| split].
  - intros self' Hr.
    destruct (sprite_item (canvas self)) as [[x y] |] eqn:Hs.
    + destruct (on_resize_cases self x y Hs) as [[_ E] | [_ E]];
        rewrite E in Hr; injection Hr as <-; exact H.
    + unfold on_resize in Hr. rewrite Hs in Hr. discriminate.
  - now apply loop_in_step.
  - intros Hp. destruct p as [x y].
    pose proof (loop_in_step self H) as L. unfold cursor_in_step in L.
    rewrite L. rewrite (loop_unfold self x y Hp).
    now destruct (update_cursor_hidden (moved self x y)) as [-> ->].
Qed.

Lemma cursor_follows_pointer_witness :
  let self := app 900 600 100 60 (450, 300) (0, 0) in
  cursor_in_step self
  /\ sprite_at self (450, 300)
  /\ (forall ex ey, cursor_in_step (on_mouse_move self ex ey))
  /\ (forall self', on_resize self = Some self' -> cursor_in_step self')
  /\ cursor_in_step (loop self)
  /\ cursor (canvas (loop self))
     = if pointer_over_sprite (loop self) then "none"%string else CURSOR_NORMAL.
Proof.
  intros self.
  assert (H : cursor_in_step self) by reflexivity.
  assert (Hp : sprite_at self (450, 300)) by (split; reflexivity).
  destruct (cursor_follows_pointer self (450, 300) H) as (A & B & C & D).
  split; [exact H |]. split; [exact Hp |].
  split; [exact A |]. split; [exact B |]. split; [exact C |].
  exact (D Hp).
Defined.

(** X13: [<Enter>] and [<Leave>] show the cursor without clearing
    [_cursor_hidden].  If the cursor was hidden and the pointer is still
    over the sprite at the next timer callback, that callback does not hide
    it again: the cursor stays visible over the sprite while the flag says
    hidden. *)
Theorem enter_leaves_flag_stale (self : ChaserApp) (p : R * R) :
  sprite_at self p ->
  _cursor_hidden self = true ->
  pointer_over_sprite (loop self) = true ->
  cursor (canvas (loop (on_enter self))) = CURSOR_NORMAL
  /\ cursor (canvas (loop (on_leave self))) = CURSOR_NORMAL
  /\ _cursor_hidden (loop (on_enter self)) = true
  /\ pointer_over_sprite (loop (on_enter self)) = true.
Proof.
  destruct p as [x y]. intros H Hh Hp.
  assert (He : sprite_at (on_enter self) (x, y)) by exact H.
  assert (Hl : sprite_at (on_leave self) (x, y)) by exact H.
  assert (Pm : pointer_over_sprite (moved self x y) = true).
  { rewrite (loop_unfold self x y H) in Hp.
    now destruct (update_cursor_hidden (moved self x y)) as [_ <-]. }
  assert (Pe : pointer_over_sprite (moved (on_enter self) x y) = true).
  { rewrite <- Pm. apply pointer_over_sprite_ext; try reflexivity.
    unfold moved, coords_set. simpl. now destruct (sprite_item (canvas self)). }
  assert (Pl : pointer_over_sprite (moved (on_leave self) x y) = true).
  { rewrite <- Pm. apply pointer_over_sprite_ext; try reflexivity.
    unfold moved, coords_set. simpl. now destruct (sprite_item (canvas self)). }
  assert (Ue : update_cursor (moved (on_enter self) x y) = moved (on_enter self) x y).
  { unfold update_cursor. rewrite Pe.
    destruct (moved_cursor (on_enter self) x y) as [_ ->].
    simpl. now rewrite Hh. }
  assert (Ul : update_cursor (moved (on_leave self) x y) = moved (on_leave self) x y).
  { unfold update_cursor. rewrite Pl.
    destruct (moved_cursor (on_leave self) x y) as [_ ->].
    simpl. now rewrite Hh. }
  rewrite (loop_unfold _ x y He), (loop_unfold _ x y Hl), Ue, Ul.
  destruct (moved_cursor (on_enter self) x y) as [-> ->].
  destruct (moved_cursor (on_leave self) x y) as [-> _].
  repeat split; trivial.
Qed.

Lemma enter_leaves_flag_stale_witness :
  let self := mkChaserApp (mkCanvas 900 600 (Some (450, 300)) "none")
                          100 60 (450, 300) (0, 0) true true in
  sprite_at self (450, 300)
  /\ _cursor_hidden self = true
  /\ pointer_over_sprite (loop self) = true
  /\ cursor (canvas (loop (on_enter self))) = CURSOR_NORMAL
  /\ cursor (canvas (loop (on_leave self))) = CURSOR_NORMAL
  /\ _cursor_hidden (loop (on_enter self)) = true
  /\ pointer_over_sprite (loop (on_enter self)) = true.
Proof.
  intros self.
  assert (H : sprite_at self (450, 300)) by (split; reflexivity).
  assert (Hp : pointer_over_sprite (loop self) = true).
  { destruct (loop_fields self 450 300 H) as (Hc & _).
    rewrite (frame_velocity_rest self 450 300 eq_refl) in Hc.
    assert (Hq : clamp_to_canvas self (450 + fst (0, 0)) (300 + snd (0, 0))
                 = (450, 300)).
    { unfold clamp_to_canvas, py_min, py_max. simpl. f_equal; case_Rlt. }
    rewrite Hq in Hc.
    apply (pointer_over_sprite_spec (loop self) (450, 300) Hc).
    destruct (loop_fields self 450 300 H) as (_ & _ & _ & Hw & Hh & Ht & _).
    unfold in_padded_box, POINTER_PADDING. rewrite Hw, Hh, Ht. simpl. lra. }
  split; [exact H |]. split; [reflexivity |]. split; [exact Hp |].
  exact (enter_leaves_flag_stale self (450, 300) H eq_refl Hp).
Defined.

(** X14: a sprite resting on the pointer hides the cursor: with the centre
    on the target, inside the clamp range, and a sprite of non-negative
    size, the timer callback ends with [_cursor_hidden] set. *)
Theorem rest_hides_cursor (self : ChaserApp) (p : R * R) :
  sprite_at self p ->
  target self = p ->
  in_clamp_range self p ->
  0 <= sprite_w self -> 0 <= sprite_h self ->
  _cursor_hidden (loop self) = true
  /\ pointer_over_sprite (loop self) = true.
Proof.
  destruct p as [x y]. intros H Ht Hin Hw Hh.
  destruct (loop_fields self x y H) as (Hc & _ & _ & Lw & Lh & Lt & _).
  rewrite (frame_velocity_rest self x y Ht) in Hc. cbn [fst snd] in Hc.
  rewrite !Rplus_0_r in Hc.
  pose proof (clamp_fixed self (x, y) Hin) as Hf. cbn [fst snd] in Hf.
  rewrite Hf in Hc.
  assert (Hp : pointer_over_sprite (loop self) = true).
  { apply (pointer_over_sprite_spec (loop self) (x, y) Hc).
    unfold in_padded_box, POINTER_PADDING. rewrite Lw, Lh, Lt, Ht. simpl. lra. }
  split; [| exact Hp].
  rewrite <- Hp. rewrite (loop_unfold self x y H).
  now destruct (update_cursor_hidden (moved self x y)) as [-> ->].
Qed.

Lemma rest_hides_cursor_witness :
  let self := app 900 600 100 60 (450, 300) (450, 300) in
  sprite_at self (450, 300)
  /\ target self = (450, 300)
  /\ in_clamp_range self (450, 300)
  /\ 0 <= sprite_w self /\ 0 <= sprite_h self
  /\ _cursor_hidden (loop self) = true
  /\ pointer_over_sprite (loop self) = true.
Proof.
  intros self.
  assert (H : sprite_at self (450, 300)) by (split; reflexivity).
  assert (Hin : in_clamp_range self (450, 300)).
  { unfold in_clamp_range, clamp_lo, clamp_hi, py_max. simpl.
    split; case_Rlt. }
  assert (Hw : 0 <= sprite_w self) by (simpl; lra).
  assert (Hh : 0 <= sprite_h self) by (simpl; lra).
  split; [exact H |]. split; [reflexivity |]. split; [exact Hin |].
  split; [exact Hw |]. split; [exact Hh |].
  exact (rest_hides_cursor self (450, 300) H eq_refl Hin Hw Hh).
Defined.

(** * The image choice dialog *)

Lemma dialog_step_pickable (choices : list (string * string))
    (actions : list DialogAction) (dlg : ImageChoiceDialog) (a : DialogAction) :
  (forall q, In q (map snd choices) -> truthy q = true) ->
  In a actions ->
  pickable choices actions (var dlg) ->
  (forall r, result dlg = Some r -> pickable choices actions r) ->
  pickable choices actions (var (dialog_step choices dlg a))
  /\ (forall r, result (dialog_step choices dlg a) = Some r ->
                pickable choices actions r).
Proof.
  intros Hc Ha Hv Hr. unfold dialog_step.
  destruct (destroyed dlg); [auto |].
  destruct a as [i | answer | |]; simpl.
  - destruct (nth_error choices i) as [[l q] |] eqn:E; [| auto].
    simpl. split; [| exact Hr].
    assert (Hq : In q (map snd choices))
      by (apply nth_error_In in E; now apply (in_map snd) in E).
    split; [now apply Hc | now left].
  - unfold on_browse. destruct (truthy answer) eqn:E; [| auto].
    simpl. split; [| exact Hr]. split; [exact E | now right].
  - split; [exact Hv |]. intros r [= <-]. exact Hv.
  - split; [exact Hv |]. discriminate.
Qed.

Lemma returned_path_pickable (choices : list (string * string))
    (actions : list DialogAction) (p : string) :
  (forall q, In q (map snd choices) -> truthy q = true) ->
  choose_image_path choices actions = Returned (Some p) ->
  pickable choices actions p.
Proof.
  intros Hc. unfold choose_image_path, dialog_init.
  destruct choices as [| [l0 q0] rest] eqn:Ech; [discriminate |].
  rewrite <- Ech in *.
  assert (G : forall l dlg,
             incl l actions ->
             pickable choices actions (var dlg) ->
             (forall r, result dlg = Some r -> pickable choices actions r) ->
             forall r, result (fold_left (dialog_step choices) l dlg) = Some r ->
                       pickable choices actions r).
  { induction l as [| a l IH]; intros dlg Hi Hv Hr r; [apply Hr |].
    simpl.
    destruct (dialog_step_pickable choices actions dlg a Hc) as [Sv Sr]; trivial.
    { apply Hi. now left. }
    apply IH; trivial.
    intros x Hx. apply Hi. now right. }
  destruct (destroyed _); [| discriminate].
  intros [= E]. apply (G actions (mkDialog q0 None false)); trivial.
  - apply incl_refl.
  - simpl. assert (Hq : In q0 (map snd choices)) by (rewrite Ech; now left).
    split; [now apply Hc | now left].
  - discriminate.
Qed.

Lemma browse_cancelled (choices : list (string * string)) (dlg : ImageChoiceDialog) :
  dialog_step choices dlg (ClickBrowse EmptyString) = dlg.
Proof.
  unfold dialog_step. now destruct (destroyed dlg).
Qed.

(** X15: whatever the user does in the dialog, a path returned by
    [choose_image_path] is never empty (the choices offering no empty
    path): it is the file of one of the choices or a file picked with
    "Browse".  A cancelled file picker leaves the selection as it was:
    using "Browse" and cancelling, at any point, does not change what
    [choose_image_path] returns. *)
Theorem chosen_path_pickable (choices : list (string * string)) :
  (forall (actions : list DialogAction) (p : string),
      (forall q, In q (map snd choices) -> truthy q = true) ->
      choose_image_path choices actions = Returned (Some p) ->
      truthy p = true
      /\ (In p (map snd choices) \/ In (ClickBrowse p) actions))
  /\ (forall before after : list DialogAction,
         choose_image_path choices (before ++ ClickBrowse EmptyString :: after)
         = choose_image_path choices (before ++ after)).
Proof.
  split.
  - intros actions p Hc E. exact (returned_path_pickable choices actions p Hc E).
  - intros before after. unfold choose_image_path.
    destruct (dialog_init choices) as [dlg |]; [| reflexivity].
    rewrite !fold_left_app. cbn [fold_left].
    now rewrite browse_cancelled.
Qed.

Lemma chosen_path_pickable_witness :
  let actions := ClickRadio 1 :: ClickBrowse EmptyString :: Confirm :: Dismiss :: nil in
  (forall q, In q (map snd IMAGE_CHOICES) -> truthy q = true)
  /\ choose_image_path IMAGE_CHOICES actions
     = Returned (Some "snoopy-grabbing.png"%string)
  /\ truthy "snoopy-grabbing.png" = true
  /\ (In "snoopy-grabbing.png"%string (map snd IMAGE_CHOICES)
      \/ In (ClickBrowse "snoopy-grabbing.png") actions).
Proof.
  intros actions.
  assert (Hc : forall q, In q (map snd IMAGE_CHOICES) -> truthy q = true).
  { intros q [<- | [<- | []]]; reflexivity. }
  split; [exact Hc |]. split; [reflexivity |].
  apply (proj1 (chosen_path_pickable IMAGE_CHOICES) actions
               "snoopy-grabbing.png"%string Hc).
  reflexivity.
Defined.

(** X17: the dialog is centred on the screen to the pixel: its left and
    right margins, and its top and bottom margins, differ by at most one,
    the larger one on the right or at the bottom; this also holds, with
    negative margins, for a dialog larger than the screen; and a dialog
    that fits lies wholly on the screen. *)
Theorem dialog_centred (sw sh w h : Z) :
  let x := fst (dialog_position sw sh w h) in
  let y := snd (dialog_position sw sh w h) in
  (0 <= (sw - w - x) - x <= 1)%Z
  /\ (0 <= (sh - h - y) - y <= 1)%Z
  /\ ((w <= sw)%Z -> (0 <= x /\ x + w <= sw)%Z)
  /\ ((h <= sh)%Z -> (0 <= y /\ y + h <= sh)%Z).
Proof.
  unfold dialog_position. cbn [fst snd].
  pose proof (Z.div_mod (sw - w) 2 ltac:(lia)) as Dx.
  pose proof (Z.mod_pos_bound (sw - w) 2 ltac:(lia)) as Mx.
  pose proof (Z.div_mod (sh - h) 2 ltac:(lia)) as Dy.
  pose proof (Z.mod_pos_bound (sh - h) 2 ltac:(lia)) as My.
  repeat split; lia.
Qed.

Lemma dialog_centred_witness :
  (0 <= (1920 - 401 - 759) - 759 <= 1)%Z
  /\ (0 <= (1080 - 200 - 440) - 440 <= 1)%Z
  /\ ((401 <= 1920)%Z -> (0 <= 759 /\ 759 + 401 <= 1920)%Z)
  /\ ((200 <= 1080)%Z -> (0 <= 440 /\ 440 + 200 <= 1080)%Z).
Proof.
  exact (dialog_centred 1920 1080 401 200).
Defined.

(** * Loading the sprite *)

(** X18: [load_sprite_image] reports every failure once and no success:
    it returns an image with no error dialog, or [None] with exactly one.
    An existing [path] is opened without asking; otherwise the picked file
    is opened, as it is, and "Image missing" is shown when the picker was
    cancelled; "Image error" is shown exactly when opening failed. *)
Theorem load_sprite_image_reports (image : Type) (path_exists : string -> bool)
    (open_rgba : string -> option image) (path alt : string) :
  let candidate := if path_exists path then path else alt in
  match load_sprite_image image path_exists open_rgba path alt with
  | (Some img, errors) =>
      errors = nil
      /\ open_rgba candidate = Some img
      /\ (path_exists path = true \/ truthy alt = true)
  | (None, errors) =>
      (errors = "Image missing"%string :: nil
       /\ path_exists path = false /\ truthy alt = false)
      \/ (errors = "Image error"%string :: nil
          /\ open_rgba candidate = None
          /\ (path_exists path = true \/ truthy alt = true))
  end.
Proof.
  unfold load_sprite_image, try_open.
  destruct (path_exists path) eqn:E; cbn [negb].
  - destruct (open_rgba path) eqn:O; auto 10.
  - destruct (truthy alt) eqn:T; cbn [negb]; [| auto].
    destruct (open_rgba alt) eqn:O; auto 10.
Qed.
